(** * Athena query result parser: a shallow embedding of [src/index.ts]

    The TypeScript class [AthenaQueryResultParser] turns an Athena
    [ResultSet] (column metadata plus rows of optional cells) into a list of
    header-keyed row objects.  This file embeds the class in Rocq:

    - the AWS SDK shapes ([ColumnInfo], [Datum], [Row], [ResultSet]) as
      records whose optional fields are [option]s;
    - the plain JS object that [rowToObject] fills, with the assignment and
      own-key-order rules of ECMAScript that a [Record<string, _>] obeys;
    - the three static helpers as pure functions;
    - the instance ([headers], [headerRowDropped]) as a record threaded
      through the methods.

    Conventions: [None] stands for a nullish JS value ([undefined] or
    [null]) wherever the source tests with [?.] or [??]; [string | null]
    is [option string] with [None] for [null]. *)

From Stdlib Require Import Ascii String DecimalString DecimalNat.
From stdpp Require Import base numbers option list sorting strings.

Local Open Scope string_scope.
Local Open Scope list_scope.

(** ** Shapes imported from [@aws-sdk/client-athena] *)

Module Athena.

(** [ColumnInfo]: only [Name] is read by the parser. *)
Record ColumnInfo := mkColumnInfo { Name : option string }.

(** [Datum]: one cell, [VarCharValue?: string]. *)
Record Datum := mkDatum { VarCharValue : option string }.

(** [Row]: [Data?: Datum[]]. *)
Record Row := mkRow { Data : option (list Datum) }.

(** [ResultSetMetadata]: [ColumnInfo?: ColumnInfo[]]; the field is
    [ColumnInfos] here, [ColumnInfo] being the name of the element type. *)
Record ResultSetMetadata := mkMetadata { ColumnInfos : option (list ColumnInfo) }.

(** [ResultSet]: [Rows?: Row[]] and [ResultSetMetadata?: ResultSetMetadata]
    (field [Metadata] here). *)
Record ResultSet := mkResultSet {
  Metadata : option ResultSetMetadata;
  Rows : option (list Row)
}.

End Athena.
Export Athena.

(** ** JS numbers and template literals *)

(** [`${index}`] for an array index: its decimal digits. *)
Definition numberToString (index : nat) : string :=
  NilEmpty.string_of_uint (Nat.to_uint index).

(** ** [headersFromMeta]

    [columnInfo.map((col, index) => col?.Name ?? `col_${index}`)].  The
    [??] operator falls back only on a nullish left operand. *)
Definition headerOf (index : nat) (col : ColumnInfo) : string :=
  match Name col with
  | Some name => name
  | None => "col_" +:+ numberToString index
  end.

Definition headersFromMeta (columnInfo : list ColumnInfo) : list string :=
  imap headerOf columnInfo.

(** ** The plain object behind [ParsedRow]

    [const obj: ParsedRow = {}] is an ordinary object whose prototype is
    [Object.prototype].  Its own properties are kept in creation order;
    [protoIsNull] records whether an assignment has replaced the prototype
    by [null]. *)

Module JsObject.

Record t := mk {
  protoIsNull : bool;
  props : list (string * option string)
}.

(** The object literal [{}]. *)
Definition empty : t := mk false [].

Definition hasOwn (key : string) (obj : t) : bool :=
  bool_decide (key ∈ (props obj).*1).

(** Own-property read, [None] when [key] is not an own property. *)
Definition getOwn (key : string) (obj : t) : option (option string) :=
  found ← list_find (λ p, p.1 = key) (props obj); Some found.2.2.

(** Overwrite the value of an existing own property, keeping its place. *)
Definition overwrite (key : string) (v : option string)
    (ps : list (string * option string)) : list (string * option string) :=
  (λ p, if decide (p.1 = key) then (key, v) else p) <$> ps.

(** [obj[key] = v] (ECMAScript OrdinarySet on a plain object):
    - an own data property is overwritten in place;
    - otherwise the key [__proto__] reaches the accessor inherited from
      [Object.prototype], whose setter makes [null] the new prototype and
      ignores a string; no own property is created;
    - otherwise a new own property is appended. *)
Definition set (key : string) (v : option string) (obj : t) : t :=
  if hasOwn key obj then
    mk (protoIsNull obj) (overwrite key v (props obj))
  else if bool_decide (key = "__proto__") && negb (protoIsNull obj) then
    match v with
    | None => mk true (props obj)
    | Some _ => obj
    end
  else
    mk (protoIsNull obj) (props obj ++ [(key, v)]).

(** Decimal value of a string of ASCII digits. *)
Definition digitValue (c : ascii) : option N :=
  let n := N_of_ascii c in
  if ((48 <=? n) && (n <=? 57))%N then Some (n - 48)%N else None.

Fixpoint digitsValue (acc : N) (s : string) : option N :=
  match s with
  | EmptyString => Some acc
  | String c rest => d ← digitValue c; digitsValue (10 * acc + d)%N rest
  end.

(** A property key is an array index when it is the canonical decimal
    numeral of an integer in [0, 2^32 - 2]. *)
Definition arrayIndex (key : string) : option N :=
  match key with
  | EmptyString => None
  | String c rest =>
    if bool_decide (c = "0"%char) && negb (bool_decide (rest = EmptyString)) then None
    else n ← digitsValue 0 key; if (n <? 4294967295)%N then Some n else None
  end.

Definition indexed (p : string * option string) : option (N * (string * option string)) :=
  n ← arrayIndex p.1; Some (n, p).

Definition indexLe (a b : N * (string * option string)) : Prop := (a.1 ≤ b.1)%N.

#[global] Instance indexLe_dec a b : Decision (indexLe a b) := N.le_dec a.1 b.1.

(** [Object.entries(obj)]: own properties in own-key order, array-index
    keys first in ascending numeric order, then the other keys in
    creation order. *)
Definition entries (obj : t) : list (string * option string) :=
  (snd <$> merge_sort indexLe (omap indexed (props obj)))
  ++ filter (λ p, arrayIndex p.1 = None) (props obj).

End JsObject.

(** [ParsedRow = Record<string, string | null>]. *)
Definition ParsedRow : Type := JsObject.t.

(** ** [rowToObject] *)

(** [row.Data?.[index]?.VarCharValue ?? null]. *)
Definition cellValue (row : Row) (index : nat) : option string :=
  match Data row with
  | None => None
  | Some data =>
    match data !! index with
    | None => None
    | Some datum => VarCharValue datum
    end
  end.

(** The cells of a row, [row.Data ?? []]. *)
Definition cells (row : Row) : list Datum := default [] (Data row).

(** [for (const [index, header] of headers.entries()) obj[header] = ...]. *)
Definition rowToObject (row : Row) (headers : list string) : ParsedRow :=
  foldl (λ obj '(index, header), JsObject.set header (cellValue row index) obj)
        JsObject.empty (imap pair headers).

(** ** [isHeaderRow] *)

(** [Array.prototype.every] with the [(element, index)] callback. *)
Definition every {A} (p : A → nat → bool) (l : list A) : bool :=
  forallb id (imap (λ index x, p x index) l).

(** [!row?.Data?.length] is true when [Data] is missing or empty. *)
Definition isHeaderRow (row : Row) (headers : list string) : bool :=
  match Data row with
  | None | Some [] => false
  | Some (_ :: _) =>
    every (λ header index, bool_decide (cellValue row index = Some header)) headers
  end.

(** ** The parser instance *)

Record Parser := mkParser {
  headers : option (list string);
  headerRowDropped : bool
}.

(** [new AthenaQueryResultParser()]. *)
Definition newParser : Parser := mkParser None false.

(** [if (!this.headers && columnInfo.length > 0) this.headers = ...]. *)
Definition initHeaders (columnInfo : list ColumnInfo) (this : Parser) : Parser :=
  match headers this, columnInfo with
  | None, _ :: _ => mkParser (Some (headersFromMeta columnInfo)) (headerRowDropped this)
  | _, _ => this
  end.

(** [getHeaders]: [return this.headers]. *)
Definition getHeaders (this : Parser) : option (list string) := headers this.

(** [resultSet.ResultSetMetadata?.ColumnInfo ?? []]. *)
Definition metaOf (resultSet : ResultSet) : list ColumnInfo :=
  default [] (Metadata resultSet ≫= ColumnInfos).

(** [resultSet.Rows ?? []]. *)
Definition rawRowsOf (resultSet : ResultSet) : list Row :=
  default [] (Rows resultSet).

(** The [skipHeader] flag computed by [parseResultSet]. *)
Definition skipHeaderOf (dropped : bool) (rawRows : list Row) (hs : list string) : bool :=
  negb dropped &&
  match rawRows with
  | [] => false
  | first :: _ => isHeaderRow first hs
  end.

(** [parseResultSet]: the returned rows and the instance afterwards. *)
Definition parseResultSet (resultSet : option ResultSet) (this : Parser)
    : list ParsedRow * Parser :=
  match resultSet with
  | None => ([], this)
  | Some rs =>
    let this := initHeaders (metaOf rs) this in
    match headers this with
    | None => ([], this)
    | Some hs =>
      let rawRows := rawRowsOf rs in
      let skipHeader := skipHeaderOf (headerRowDropped this) rawRows hs in
      let this := if skipHeader then mkParser (headers this) true else this in
      let rows := if skipHeader then drop 1 rawRows else rawRows in
      ((λ row, rowToObject row hs) <$> rows, this)
    end
  end.

(** [reset]: [this.headers = null; this.headerRowDropped = false]. *)
Definition reset (this : Parser) : Parser := mkParser None false.

(** ** [parseResultSetWith] *)

(** What a [RowParser<T>] can hand back: [null], [undefined] (when [T]
    admits it, or the callback falls off its end) or a proper value. *)
Inductive JsValue (T : Type) :=
| JsNull
| JsUndefined
| JsOf (v : T).
Arguments JsNull {T}.
Arguments JsUndefined {T}.
Arguments JsOf {T} v.

(** [parsed !== null]. *)
Definition notStrictNull {T} (parsed : JsValue T) : bool :=
  match parsed with
  | JsNull => false
  | _ => true
  end.

Definition isUndefined {T} (parsed : JsValue T) : bool :=
  match parsed with
  | JsUndefined => true
  | _ => false
  end.

(** A caller-supplied [rowParser]; [S] is whatever state of the caller it
    reads and writes. *)
Definition RowParser (S T : Type) : Type := ParsedRow → S → JsValue T * S.

(** The [for (const row of rows)] loop with its [results] accumulator. *)
Fixpoint forOfRows {S T} (rowParser : RowParser S T) (rows : list ParsedRow)
    (results : list (JsValue T)) (s : S) : list (JsValue T) * S :=
  match rows with
  | [] => (results, s)
  | row :: rest =>
    let '(parsed, s) := rowParser row s in
    forOfRows rowParser rest
      (if notStrictNull parsed then results ++ [parsed] else results) s
  end.

Definition parseResultSetWith {S T} (resultSet : option ResultSet)
    (rowParser : RowParser S T) (this : Parser) (s : S)
    : list (JsValue T) * Parser * S :=
  let '(rows, this) := parseResultSet resultSet this in
  let '(results, s) := forOfRows rowParser rows [] s in
  (results, this, s).

(** The transform results of all rows, in row order, before filtering:
    what [rowParser] returns when it is called on each row in turn. *)
Fixpoint transformEach {S T} (rowParser : RowParser S T) (rows : list ParsedRow)
    (s : S) : list (JsValue T) * S :=
  match rows with
  | [] => ([], s)
  | row :: rest =>
    let '(parsed, s) := rowParser row s in
    let '(others, s) := transformEach rowParser rest s in
    (parsed :: others, s)
  end.

(** A [rowParser] without side effects. *)
Definition pureRowParser {S T} (f : ParsedRow → JsValue T) : RowParser S T :=
  λ row s, (f row, s).

(** ** Sessions: sequences of method calls on one instance *)

(** A parse call suppressed the first row when headers are in place and
    it returned fewer rows than the batch holds. *)
Definition headerRowSuppressed (resultSet : option ResultSet) (this : Parser) : bool :=
  match resultSet with
  | None => false
  | Some rs =>
    let '(rows, this) := parseResultSet resultSet this in
    bool_decide (is_Some (headers this))
    && bool_decide (length rows < length (rawRowsOf rs))%nat
  end.

Section Session.
Context {S T : Type}.

Inductive Call :=
| CallInitHeaders (columnInfo : list ColumnInfo)
| CallParseResultSet (resultSet : option ResultSet)
| CallParseResultSetWith (resultSet : option ResultSet) (rowParser : RowParser S T)
| CallReset.

Inductive Returned :=
| RetVoid
| RetRows (rows : list ParsedRow)
| RetResults (results : list (JsValue T)).

(** One method call: what it returns, the instance and the caller's state
    afterwards. *)
Definition call (c : Call) (st : Parser * S) : Returned * (Parser * S) :=
  match c with
  | CallInitHeaders columnInfo => (RetVoid, (initHeaders columnInfo st.1, st.2))
  | CallParseResultSet resultSet =>
    let '(rows, this) := parseResultSet resultSet st.1 in (RetRows rows, (this, st.2))
  | CallParseResultSetWith resultSet rowParser =>
    let '(results, this, s) := parseResultSetWith resultSet rowParser st.1 st.2 in
    (RetResults results, (this, s))
  | CallReset => (RetVoid, (reset st.1, st.2))
  end.

(** The trace of a call sequence: each call's return value with the state
    it leaves. *)
Fixpoint run (calls : list Call) (st : Parser * S) : list (Returned * (Parser * S)) :=
  match calls with
  | [] => []
  | c :: rest => let r := call c st in r :: run rest r.2
  end.

(** The state after a call sequence. *)
Definition after (calls : list Call) (st : Parser * S) : Parser * S :=
  foldl (λ st c, (call c st).2) st calls.

Definition isReset (c : Call) : bool :=
  match c with
  | CallReset => true
  | _ => false
  end.

(** A session: calls between construction (or a reset) and the next reset. *)
Definition session (calls : list Call) : Prop := Forall (λ c, isReset c = false) calls.



End Session.

Arguments Call : clear implicits.
Arguments Returned : clear implicits.

(** The headers are [null] or a non-empty array. *)
Definition headersNotEmpty (this : Parser) : Prop := headers this ≠ Some [].

(** The instance states that public calls can produce from a new parser. *)
Inductive Reachable : Parser → Prop :=
| Reachable_new : Reachable newParser
| Reachable_initHeaders columnInfo this :
    Reachable this → Reachable (initHeaders columnInfo this)
| Reachable_parseResultSet resultSet this :
    Reachable this → Reachable (parseResultSet resultSet this).2
| Reachable_parseResultSetWith {S T} resultSet (rowParser : RowParser S T) s this :
    Reachable this → Reachable (parseResultSetWith resultSet rowParser this s).1.2
| Reachable_reset this :
    Reachable this → Reachable (reset this).

(** [parsed === null] and [parsed !== null] as decidable propositions. *)
#[global] Instance JsNull_eq_dec {T} (parsed : JsValue T) : Decision (parsed = JsNull).
Proof. destruct parsed; [left; reflexivity | right; discriminate | right; discriminate]. Defined.

(** ** The same code on values outside the declared types

    The signatures say [Row[]], [ColumnInfo[]] and [Datum[]]; at run time
    an entry of such an array can still be [null] or [undefined].  The
    source guards a nullish column ([col?.Name]), a nullish cell
    ([row.Data?.[index]?.VarCharValue]) and, in [isHeaderRow] only, a
    nullish row ([row?.Data]).  Reading [row.Data] of a nullish row is a
    [TypeError]. *)

Inductive Completion (A : Type) :=
| Normal (a : A)
| ThrowTypeError.
Arguments Normal {A} a.
Arguments ThrowTypeError {A}.

Module Untyped.

Record Row := mkRow { Data : option (list (option Datum)) }.

Record ResultSetMetadata := mkMetadata {
  ColumnInfos : option (list (option ColumnInfo))
}.

Record ResultSet := mkResultSet {
  Metadata : option ResultSetMetadata;
  Rows : option (list (option Row))
}.

(** [col?.Name ?? `col_${index}`]. *)
Definition headerOf (index : nat) (col : option ColumnInfo) : string :=
  match col ≫= Name with
  | Some name => name
  | None => "col_" +:+ numberToString index
  end.

Definition headersFromMeta (columnInfo : list (option ColumnInfo)) : list string :=
  imap headerOf columnInfo.

(** [row.Data?.[index]?.VarCharValue ?? null], for a row that is there. *)
Definition cellValue (row : Row) (index : nat) : option string :=
  match Data row with
  | None => None
  | Some data =>
    match data !! index with
    | Some (Some datum) => VarCharValue datum
    | _ => None
    end
  end.

(** The loop body reads [row.Data]: with a nullish row the first
    iteration throws; without headers the body never runs. *)
Definition rowToObject (row : option Row) (headers : list string)
    : Completion ParsedRow :=
  match row, headers with
  | None, [] => Normal JsObject.empty
  | None, _ :: _ => ThrowTypeError
  | Some row, _ =>
    Normal (foldl (λ obj '(index, header), JsObject.set header (cellValue row index) obj)
                  JsObject.empty (imap pair headers))
  end.

(** [!row?.Data?.length] also answers for a nullish row. *)
Definition isHeaderRow (row : option Row) (headers : list string) : bool :=
  match row with
  | None => false
  | Some row =>
    match Data row with
    | None | Some [] => false
    | Some (_ :: _) =>
      every (λ header index, bool_decide (cellValue row index = Some header)) headers
    end
  end.

Definition initHeaders (columnInfo : list (option ColumnInfo)) (this : Parser) : Parser :=
  match headers this, columnInfo with
  | None, _ :: _ => mkParser (Some (headersFromMeta columnInfo)) (headerRowDropped this)
  | _, _ => this
  end.

Definition metaOf (resultSet : ResultSet) : list (option ColumnInfo) :=
  default [] (Metadata resultSet ≫= ColumnInfos).

Definition rawRowsOf (resultSet : ResultSet) : list (option Row) :=
  default [] (Rows resultSet).

Definition skipHeaderOf (dropped : bool) (rawRows : list (option Row))
    (hs : list string) : bool :=
  negb dropped &&
  match rawRows with
  | [] => false
  | first :: _ => isHeaderRow first hs
  end.

(** [rows.map((row) => rowToObject(row, headers))]: the first throwing
    call ends the map. *)
Fixpoint mapRows (hs : list string) (rows : list (option Row))
    : Completion (list ParsedRow) :=
  match rows with
  | [] => Normal []
  | row :: rest =>
    match rowToObject row hs with
    | ThrowTypeError => ThrowTypeError
    | Normal obj =>
      match mapRows hs rest with
      | ThrowTypeError => ThrowTypeError
      | Normal objs => Normal (obj :: objs)
      end
    end
  end.

(** [parseResultSet]: what the call completes with, and the instance it
    leaves; the assignments made before a throw stay. *)
Definition parseResultSet (resultSet : option ResultSet) (this : Parser)
    : Completion (list ParsedRow) * Parser :=
  match resultSet with
  | None => (Normal [], this)
  | Some rs =>
    let this := initHeaders (metaOf rs) this in
    match headers this with
    | None => (Normal [], this)
    | Some hs =>
      let rawRows := rawRowsOf rs in
      let skipHeader := skipHeaderOf (headerRowDropped this) rawRows hs in
      let this := if skipHeader then mkParser (headers this) true else this in
      let rows := if skipHeader then drop 1 rawRows else rawRows in
      (mapRows hs rows, this)
    end
  end.

Definition parseResultSetWith {S T} (resultSet : option ResultSet)
    (rowParser : RowParser S T) (this : Parser) (s : S)
    : Completion (list (JsValue T)) * Parser * S :=
  match parseResultSet resultSet this with
  | (ThrowTypeError, this) => (ThrowTypeError, this, s)
  | (Normal rows, this) =>
    let '(results, s) := forOfRows rowParser rows [] s in
    (Normal results, this, s)
  end.



End Untyped.

(** ** Unit tests of the repository, replayed on the embedding *)

Definition makeColumnInfo (names : list string) : list ColumnInfo :=
  (λ name, mkColumnInfo (Some name)) <$> names.

Definition makeRow (values : list (option string)) : Row :=
  mkRow (Some (mkDatum <$> values)).

Definition makeResultSet (columnNames : list string)
    (rows : list (list (option string))) : ResultSet :=
  mkResultSet (Some (mkMetadata (Some (makeColumnInfo columnNames))))
              (Some (makeRow <$> rows)).

(** The transform of the repository's test: skip rows with an empty or
    null [name], keep the others as [(id ?? '', name)]. *)
Definition skipEmptyName (row : ParsedRow) : JsValue (string * string) :=
  match JsObject.getOwn "name" row with
  | Some (Some name) =>
    if bool_decide (name = "") then JsNull
    else JsOf (default "" (mjoin (JsObject.getOwn "id" row)), name)
  | _ => JsNull
  end.

(** Two pages of one query, each starting with a row equal to the header. *)
Definition pageWithHeader : ResultSet :=
  makeResultSet ["id"; "name"] [[Some "id"; Some "name"]; [Some "1"; Some "Alice"]].

Example headersFromMeta_test_names :
  headersFromMeta (makeColumnInfo ["a"; "b"; "c"]) = ["a"; "b"; "c"].
Proof. reflexivity. Qed.

Example headersFromMeta_test_missing :
  headersFromMeta [mkColumnInfo None; mkColumnInfo None; mkColumnInfo None]
  = ["col_0"; "col_1"; "col_2"].
Proof. reflexivity. Qed.

Example rowToObject_test :
  JsObject.entries (rowToObject (makeRow [Some "a"; None; Some "c"]) ["h1"; "h2"; "h3"])
  = [("h1", Some "a"); ("h2", None); ("h3", Some "c")].
Proof. vm_compute. reflexivity. Qed.

Example isHeaderRow_test_match :
  isHeaderRow (makeRow [Some "a"; Some "b"; Some "c"]) ["a"; "b"; "c"] = true.
Proof. reflexivity. Qed.

Example isHeaderRow_test_empty : isHeaderRow (makeRow []) ["a"] = false.
Proof. reflexivity. Qed.

Example parseResultSet_test :
  JsObject.entries <$>
    (parseResultSet
       (Some (makeResultSet ["id"; "name"]
          [[Some "id"; Some "name"]; [Some "1"; Some "Alice"]; [Some "2"; Some "Bob"]]))
       newParser).1
  = [[("id", Some "1"); ("name", Some "Alice")];
     [("id", Some "2"); ("name", Some "Bob")]].
Proof. vm_compute. reflexivity. Qed.

(** ** [headersFromMeta] *)

Lemma headersFromMeta_length columnInfo :
  length (headersFromMeta columnInfo) = length columnInfo.
Proof. unfold headersFromMeta. apply length_imap. Qed.

Lemma headersFromMeta_lookup columnInfo (i : nat) :
  headersFromMeta columnInfo !! i = headerOf i <$> columnInfo !! i.
Proof. unfold headersFromMeta. apply list_lookup_imap. Qed.

Example numberToString_digits :
  numberToString 0 = "0" ∧ numberToString 7 = "7" ∧ numberToString 120 = "120".
Proof. repeat split. Qed.

(** C2, as stated, fails: a column whose [Name] is the empty string keeps
    the empty string as its header, [??] only replaces a nullish name. *)
Lemma headersFromMeta_empty_name_kept :
  headersFromMeta [mkColumnInfo (Some "")] = [""]
  ∧ headersFromMeta [mkColumnInfo (Some "")] ≠ ["col_0"].
Proof. split; [reflexivity | discriminate]. Qed.

(** C2 (amended): [headersFromMeta] returns a list of the same length and
    order as the column list; position [i] holds the column's [Name]
    whenever a name is present, the empty string included, and the
    placeholder [col_i] (0-based, decimal) exactly when the name is
    absent. *)
Theorem headersFromMeta_spec (columnInfo : list ColumnInfo) :
  length (headersFromMeta columnInfo) = length columnInfo
  ∧ (∀ (i : nat) col name,
       columnInfo !! i = Some col → Name col = Some name →
       headersFromMeta columnInfo !! i = Some name)
  ∧ (∀ (i : nat) col,
       columnInfo !! i = Some col → Name col = None →
       headersFromMeta columnInfo !! i = Some ("col_" +:+ numberToString i)).
Proof.
  split; [apply headersFromMeta_length |].
  split; intros i col.
  - intros name Hcol Hname.
    rewrite headersFromMeta_lookup, Hcol. simpl.
    unfold headerOf. now rewrite Hname.
  - intros Hcol Hname.
    rewrite headersFromMeta_lookup, Hcol. simpl.
    unfold headerOf. now rewrite Hname.
Qed.

Lemma headersFromMeta_spec_witness :
  headersFromMeta [mkColumnInfo None; mkColumnInfo (Some "b"); mkColumnInfo None] !! 1
    = Some "b"
  ∧ headersFromMeta [mkColumnInfo None; mkColumnInfo (Some "b"); mkColumnInfo None] !! 2
    = Some "col_2".
Proof.
  pose proof (headersFromMeta_spec
    [mkColumnInfo None; mkColumnInfo (Some "b"); mkColumnInfo None]) as (_ & Hname & Hnone).
  split.
  - apply (Hname 1 (mkColumnInfo (Some "b")) "b"); reflexivity.
  - apply (Hnone 2 (mkColumnInfo None)); reflexivity.
Defined.

(** ** [isHeaderRow] *)

Lemma every_spec {A} (p : A → nat → bool) (l : list A) :
  every p l = true ↔ ∀ (i : nat) x, l !! i = Some x → p x i = true.
Proof.
  unfold every. rewrite forallb_forall. split.
  - intros Hall i x Hix. apply (Hall (p x i)).
    apply list_elem_of_In, elem_of_lookup_imap. eauto.
  - intros Hall b Hb.
    apply list_elem_of_In, elem_of_lookup_imap in Hb as (i & x & -> & Hix).
    simpl. eauto.
Qed.

Lemma cellValue_cells row (i : nat) :
  cellValue row i = cells row !! i ≫= VarCharValue.
Proof. unfold cellValue, cells. destruct (Data row) as [data|]; simpl; [|done]. now destruct (data !! i). Qed.

Lemma cellValue_beyond row (i : nat) :
  (length (cells row) ≤ i)%nat → cellValue row i = None.
Proof. intros Hi. rewrite cellValue_cells, lookup_ge_None_2; done. Qed.

(** C4: [isHeaderRow] answers [true] exactly when the row has at least one
    cell and, at every header position, the cell value (null when absent)
    is that very header string; a row without cells is never a header row,
    not even for the empty header list. *)
Theorem isHeaderRow_iff (row : Row) (headers : list string) :
  (isHeaderRow row headers = true ↔
     (1 ≤ length (cells row))%nat
     ∧ ∀ (i : nat) header, headers !! i = Some header → cellValue row i = Some header)
  ∧ (length (cells row) = 0 → isHeaderRow row headers = false).
Proof.
  unfold isHeaderRow, cells.
  destruct (Data row) as [[|datum data]|] eqn:Hdata; simpl.
  - split; [|done]. split; [done | intros [? _]; lia].
  - split; [|done]. rewrite every_spec. split.
    + intros Hall. split; [lia |]. intros i header Hi.
      specialize (Hall i header Hi). now apply bool_decide_eq_true in Hall.
    + intros [_ Hall] i header Hi. apply bool_decide_eq_true. eauto.
  - split; [|done]. split; [done | intros [? _]; lia].
Qed.

Lemma isHeaderRow_iff_witness :
  isHeaderRow (makeRow [Some "a"; Some "b"]) ["a"; "b"] = true
  ∧ isHeaderRow (makeRow []) [] = false.
Proof.
  split.
  - apply (proj1 (isHeaderRow_iff (makeRow [Some "a"; Some "b"]) ["a"; "b"])).
    split; [simpl; lia |].
    intros [|[|i]] header Hi; simpl in Hi; inversion Hi; reflexivity.
  - apply (proj2 (isHeaderRow_iff (makeRow []) [])). reflexivity.
Defined.

Example isHeaderRow_case_sensitive :
  isHeaderRow (makeRow [Some "ID"]) ["id"] = false.
Proof. reflexivity. Qed.

Example isHeaderRow_absent_cell :
  isHeaderRow (makeRow [Some "a"; None]) ["a"; "b"] = false
  ∧ isHeaderRow (makeRow [Some "a"]) ["a"; "b"] = false.
Proof. split; reflexivity. Qed.

Example isHeaderRow_no_data : isHeaderRow (mkRow None) [] = false.
Proof. reflexivity. Qed.

(** ** [initHeaders] *)

Lemma initHeaders_set columnInfo this hs :
  headers this = Some hs → initHeaders columnInfo this = this.
Proof. unfold initHeaders. now intros ->. Qed.

Lemma initHeaders_nil this : initHeaders [] this = this.
Proof. unfold initHeaders. now destruct (headers this). Qed.

Lemma initHeaders_flag columnInfo this :
  headerRowDropped (initHeaders columnInfo this) = headerRowDropped this.
Proof. unfold initHeaders. now destruct (headers this), columnInfo. Qed.

(** C5: once headers are stored, [initHeaders] with any column list, equal
    or different, changes nothing; and [initHeaders] with the empty column
    list changes nothing either, so an uninitialized parser stays
    uninitialized. *)
Theorem initHeaders_idempotent (this : Parser) :
  (∀ hs columnInfo,
     headers this = Some hs →
     initHeaders columnInfo this = this
     ∧ getHeaders (initHeaders columnInfo this) = Some hs)
  ∧ initHeaders [] this = this
  ∧ (headers this = None → getHeaders (initHeaders [] this) = None).
Proof.
  split; [|split].
  - intros hs columnInfo Hset.
    rewrite (initHeaders_set _ _ _ Hset). now split.
  - apply initHeaders_nil.
  - intros Hnone. now rewrite initHeaders_nil.
Qed.

Lemma initHeaders_idempotent_witness :
  getHeaders (initHeaders (makeColumnInfo ["x"; "y"])
                (initHeaders (makeColumnInfo ["id"; "name"]) newParser))
  = Some ["id"; "name"]
  ∧ getHeaders (initHeaders [] newParser) = None.
Proof.
  split.
  - apply (proj1 (initHeaders_idempotent
             (initHeaders (makeColumnInfo ["id"; "name"]) newParser))).
    reflexivity.
  - apply (proj2 (proj2 (initHeaders_idempotent newParser))). reflexivity.
Defined.

(** ** [parseResultSet] *)

Lemma parseResultSet_absent_input this : parseResultSet None this = ([], this).
Proof. reflexivity. Qed.

Lemma parseResultSet_unset rs this :
  headers (initHeaders (metaOf rs) this) = None →
  parseResultSet (Some rs) this = ([], initHeaders (metaOf rs) this).
Proof. intros Hnone. unfold parseResultSet. now rewrite Hnone. Qed.

Lemma parseResultSet_ready rs this hs :
  headers (initHeaders (metaOf rs) this) = Some hs →
  parseResultSet (Some rs) this =
    if skipHeaderOf (headerRowDropped this) (rawRowsOf rs) hs
    then ((λ row, rowToObject row hs) <$> drop 1 (rawRowsOf rs), mkParser (Some hs) true)
    else ((λ row, rowToObject row hs) <$> rawRowsOf rs, initHeaders (metaOf rs) this).
Proof.
  intros Hhs. unfold parseResultSet. rewrite Hhs, initHeaders_flag.
  now destruct (skipHeaderOf _ _ _).
Qed.


Lemma parseResultSetWith_parse {S T} rs (rowParser : RowParser S T) this s :
  parseResultSetWith rs rowParser this s =
    ((forOfRows rowParser (parseResultSet rs this).1 [] s).1,
     (parseResultSet rs this).2,
     (forOfRows rowParser (parseResultSet rs this).1 [] s).2).
Proof.
  unfold parseResultSetWith.
  destruct (parseResultSet rs this) as [rows this']. simpl.
  now destruct (forOfRows rowParser rows [] s).
Qed.

(** *** Values of the declared types never throw *)














(** ** [parseResultSetWith] *)

Lemma forOfRows_transformEach {S T} (rowParser : RowParser S T) rows results s :
  forOfRows rowParser rows results s =
    (results ++ filter notStrictNull (transformEach rowParser rows s).1,
     (transformEach rowParser rows s).2).
Proof.
  revert results s. induction rows as [|row rest IH]; intros results s; simpl.
  - now rewrite app_nil_r.
  - destruct (rowParser row s) as [parsed s1]. rewrite IH.
    destruct (transformEach rowParser rest s1) as [others s2]. simpl.
    destruct parsed; simpl; rewrite ?filter_cons; simpl;
      repeat case_decide; try done; try tauto; now rewrite <- ?app_assoc.
Qed.

Lemma transformEach_length {S T} (rowParser : RowParser S T) rows s :
  length (transformEach rowParser rows s).1 = length rows.
Proof.
  revert s. induction rows as [|row rest IH]; intros s; simpl; [done |].
  destruct (rowParser row s) as [parsed s1]. specialize (IH s1).
  destruct (transformEach rowParser rest s1). simpl in *. now rewrite IH.
Qed.

Lemma transformEach_pure {S T} (f : ParsedRow → JsValue T) rows (s : S) :
  transformEach (pureRowParser f) rows s = (f <$> rows, s).
Proof.
  induction rows as [|row rest IH]; simpl; [done |]. now rewrite IH.
Qed.

Lemma parseResultSetWith_filter {S T} rs (rowParser : RowParser S T) this s :
  parseResultSetWith rs rowParser this s =
    (filter notStrictNull (transformEach rowParser (parseResultSet rs this).1 s).1,
     (parseResultSet rs this).2,
     (transformEach rowParser (parseResultSet rs this).1 s).2).
Proof. now rewrite parseResultSetWith_parse, forOfRows_transformEach. Qed.

Lemma filter_notStrictNull_ne {T} (all : list (JsValue T)) :
  filter notStrictNull all = filter (λ parsed, parsed ≠ JsNull) all.
Proof.
  apply list_filter_iff. intros parsed. now destruct parsed.
Qed.

Lemma filter_null_count {T} (all : list (JsValue T)) :
  (length (filter (λ parsed, parsed ≠ JsNull) all)
   + length (filter (λ parsed, parsed = JsNull) all))%nat
  = length all.
Proof.
  induction all as [|parsed all IH]; [done |].
  rewrite !filter_cons. destruct parsed; simpl;
    repeat case_decide; try done; simpl; lia.
Qed.

(** C7: [parseResultSetWith] returns, in row order, exactly those
    transform results of the rows returned by [parseResultSet] that are
    not [null]: the transform is applied once to each row in order
    ([transformEach] has one result per row), every result other than
    [null] appears once, in place, and a [null] result not at all, so the
    results and the [null]s together are as many as the rows; the
    instance is left as [parseResultSet] leaves it. *)
Theorem parseResultSetWith_spec {S T} (rs : option ResultSet)
    (rowParser : RowParser S T) (this : Parser) (s : S) :
  parseResultSetWith rs rowParser this s =
    (filter (λ parsed, parsed ≠ JsNull)
       (transformEach rowParser (parseResultSet rs this).1 s).1,
     (parseResultSet rs this).2,
     (transformEach rowParser (parseResultSet rs this).1 s).2)
  ∧ length (transformEach rowParser (parseResultSet rs this).1 s).1
    = length (parseResultSet rs this).1
  ∧ (length (parseResultSetWith rs rowParser this s).1.1
     + length (filter (λ parsed, parsed = JsNull)
                 (transformEach rowParser (parseResultSet rs this).1 s).1))%nat
    = length (parseResultSet rs this).1
  ∧ (∀ f : ParsedRow → JsValue T,
       parseResultSetWith rs (pureRowParser f) this s =
         (filter (λ parsed, parsed ≠ JsNull) (f <$> (parseResultSet rs this).1),
          (parseResultSet rs this).2, s)).
Proof.
  split; [now rewrite parseResultSetWith_filter, filter_notStrictNull_ne |].
  split; [apply transformEach_length |]. split.
  - rewrite parseResultSetWith_filter, filter_notStrictNull_ne. cbn [fst snd].
    now rewrite filter_null_count, transformEach_length.
  - intros f.
    now rewrite parseResultSetWith_filter, transformEach_pure, filter_notStrictNull_ne.
Qed.

Example parseResultSetWith_test :
  (parseResultSetWith
     (Some (makeResultSet ["id"; "name"]
        [[Some "1"; Some "Alice"]; [Some "2"; Some "Bob"]; [Some "3"; Some ""]]))
     (pureRowParser skipEmptyName) newParser tt).1.1
  = [JsOf ("1", "Alice"); JsOf ("2", "Bob")].
Proof. vm_compute. reflexivity. Qed.

Lemma filter_notStrictNull_no_null {T} (all : list (JsValue T)) :
  JsNull ∉ filter notStrictNull all.
Proof. intros Hin. apply list_elem_of_filter in Hin as [Hnot _]. exact Hnot. Qed.

Lemma filter_isUndefined_notStrictNull {T} (all : list (JsValue T)) :
  filter isUndefined (filter notStrictNull all) = filter isUndefined all.
Proof.
  induction all as [|[| |v] rest IH]; [done | | |];
    rewrite ?filter_cons; simpl; repeat case_decide; try tauto;
    rewrite ?filter_cons; simpl; repeat case_decide; try tauto;
    now rewrite IH.
Qed.

(** C10: [parseResultSetWith] drops a transform result only when it is
    strictly [null]: [null] never reaches the output, every other result
    does, and the [undefined] results of the rows are all in the output,
    in order. *)
Theorem parseResultSetWith_keeps_undefined {S T} (rs : option ResultSet)
    (rowParser : RowParser S T) (this : Parser) (s : S) :
  (JsNull ∉ (parseResultSetWith rs rowParser this s).1.1)
  ∧ (∀ parsed,
       parsed ∈ (transformEach rowParser (parseResultSet rs this).1 s).1 →
       parsed ≠ JsNull →
       parsed ∈ (parseResultSetWith rs rowParser this s).1.1)
  ∧ filter isUndefined (parseResultSetWith rs rowParser this s).1.1
    = filter isUndefined (transformEach rowParser (parseResultSet rs this).1 s).1.
Proof.
  rewrite parseResultSetWith_filter. simpl. split; [|split].
  - apply filter_notStrictNull_no_null.
  - intros parsed Hin Hnot. apply list_elem_of_filter. split; [|done].
    now destruct parsed.
  - apply filter_isUndefined_notStrictNull.
Qed.

Lemma parseResultSetWith_keeps_undefined_witness :
  JsUndefined ∈
    (parseResultSetWith
       (Some (makeResultSet ["id"] [[Some "1"]; [Some "2"]]))
       (pureRowParser (λ _, @JsUndefined string)) newParser tt).1.1.
Proof.
  apply (proj1 (proj2 (parseResultSetWith_keeps_undefined
           (Some (makeResultSet ["id"] [[Some "1"]; [Some "2"]]))
           (pureRowParser (λ _, @JsUndefined string)) newParser tt))).
  - vm_compute. apply list_elem_of_here.
  - discriminate.
Defined.

Example parseResultSetWith_undefined_rows :
  (parseResultSetWith
     (Some (makeResultSet ["id"] [[Some "1"]; [Some "2"]]))
     (pureRowParser (λ row,
        if bool_decide (JsObject.getOwn "id" row = Some (Some "1"))
        then @JsUndefined string else JsNull)) newParser tt).1.1
  = [JsUndefined].
Proof. vm_compute. reflexivity. Qed.

(** ** Sessions *)

Lemma parseResultSetWith_state {S T} rs (rowParser : RowParser S T) this s :
  (parseResultSetWith rs rowParser this s).1.2 = (parseResultSet rs this).2.
Proof. now rewrite parseResultSetWith_parse. Qed.

Lemma initHeaders_headers_stable columnInfo this hs :
  headers this = Some hs → headers (initHeaders columnInfo this) = Some hs.
Proof. intros Hhs. now rewrite (initHeaders_set _ _ _ Hhs). Qed.

Lemma initHeaders_headers columnInfo this :
  headers (initHeaders columnInfo this) =
    match headers this, columnInfo with
    | None, _ :: _ => Some (headersFromMeta columnInfo)
    | hs, _ => hs
    end.
Proof.
  unfold initHeaders. destruct (headers this) eqn:Hhs, columnInfo; simpl; congruence.
Qed.

Lemma parseResultSet_headers rs this :
  headers (parseResultSet (Some rs) this).2 = headers (initHeaders (metaOf rs) this).
Proof.
  destruct (headers (initHeaders (metaOf rs) this)) as [hs|] eqn:Hhs.
  - rewrite (parseResultSet_ready _ _ _ Hhs). now destruct (skipHeaderOf _ _ _).
  - now rewrite (parseResultSet_unset _ _ Hhs).
Qed.

Lemma parseResultSet_flag rs this :
  headerRowDropped (parseResultSet (Some rs) this).2 =
    match headers (initHeaders (metaOf rs) this) with
    | Some hs => headerRowDropped this
                 || skipHeaderOf (headerRowDropped this) (rawRowsOf rs) hs
    | None => headerRowDropped this
    end.
Proof.
  destruct (headers (initHeaders (metaOf rs) this)) as [hs|] eqn:Hhs.
  - rewrite (parseResultSet_ready _ _ _ Hhs).
    destruct (skipHeaderOf _ _ _); simpl.
    + now rewrite orb_true_r.
    + now rewrite initHeaders_flag, orb_false_r.
  - rewrite (parseResultSet_unset _ _ Hhs). apply initHeaders_flag.
Qed.


Lemma headerRowSuppressed_skipHeader rs this :
  headerRowSuppressed (Some rs) this =
    match headers (initHeaders (metaOf rs) this) with
    | Some hs => skipHeaderOf (headerRowDropped this) (rawRowsOf rs) hs
    | None => false
    end.
Proof.
  unfold headerRowSuppressed.
  destruct (parseResultSet (Some rs) this) as [rows this'] eqn:Hparse.
  destruct (headers (initHeaders (metaOf rs) this)) as [hs|] eqn:Hhs.
  - rewrite (parseResultSet_ready _ _ _ Hhs) in Hparse.
    destruct (skipHeaderOf _ _ _) eqn:Hskip; inversion Hparse; subst; simpl.
    + apply bool_decide_eq_true_2. rewrite length_fmap, length_drop.
      unfold skipHeaderOf in Hskip. destruct (rawRowsOf rs); simpl.
      * now rewrite andb_false_r in Hskip.
      * lia.
    + rewrite andb_comm. rewrite bool_decide_eq_false_2; [done |].
      rewrite length_fmap. lia.
  - rewrite (parseResultSet_unset _ _ Hhs) in Hparse. inversion Hparse; subst.
    rewrite Hhs. rewrite bool_decide_eq_false_2; [done |]. now intros [? ?].
Qed.



Section SessionFacts.
Context {S T : Type}.
Implicit Types (c : Call S T) (calls : list (Call S T)) (st : Parser * S).







End SessionFacts.



Example second_page_header_is_data :
  JsObject.entries <$>
    (parseResultSet (Some pageWithHeader)
       (parseResultSet (Some pageWithHeader) newParser).2).1
  = [[("id", Some "id"); ("name", Some "name")];
     [("id", Some "1"); ("name", Some "Alice")]].
Proof. vm_compute. reflexivity. Qed.

(** ** [reset] *)

(** C8: [reset] clears the headers and the header-row flag, whatever the
    instance state, so the instance equals a new parser; any sequence of
    calls then returns the same values and goes through the same states
    as on a new parser.  In particular the next batch with columns
    supplies the headers again, and a first row equal to them is
    suppressed again. *)
Theorem reset_is_fresh {S T : Type} (this : Parser) (s : S) (calls : list (Call S T)) :
  reset this = newParser
  ∧ getHeaders (reset this) = None
  ∧ headerRowDropped (reset this) = false
  ∧ run calls (reset this, s) = run calls (newParser, s)
  ∧ (∀ resultSet, parseResultSet resultSet (reset this) = parseResultSet resultSet newParser)
  ∧ (∀ rs, metaOf rs ≠ [] →
       getHeaders (parseResultSet (Some rs) (reset this)).2
       = Some (headersFromMeta (metaOf rs)))
  ∧ (∀ rs first rest,
       metaOf rs ≠ [] → rawRowsOf rs = first :: rest →
       isHeaderRow first (headersFromMeta (metaOf rs)) = true →
       parseResultSet (Some rs) (reset this) =
         ((λ row, rowToObject row (headersFromMeta (metaOf rs))) <$> rest,
          mkParser (Some (headersFromMeta (metaOf rs))) true)).
Proof.
  repeat (split; [reflexivity |]). split.
  - intros rs Hmeta. unfold getHeaders.
    rewrite parseResultSet_headers, initHeaders_headers. simpl.
    now destruct (metaOf rs).
  - intros rs first rest Hmeta Hrows Hfirst.
    assert (headers (initHeaders (metaOf rs) (reset this))
            = Some (headersFromMeta (metaOf rs))) as Hhs.
    { rewrite initHeaders_headers. simpl. now destruct (metaOf rs). }
    rewrite (parseResultSet_ready _ _ _ Hhs). unfold skipHeaderOf.
    now rewrite Hrows, Hfirst.
Qed.

Lemma reset_is_fresh_witness :
  parseResultSet (Some pageWithHeader)
    (reset (parseResultSet (Some (makeResultSet ["x"] [[Some "x"]; [Some "7"]])) newParser).2)
  = ([rowToObject (makeRow [Some "1"; Some "Alice"]) ["id"; "name"]],
     mkParser (Some ["id"; "name"]) true).
Proof.
  pose proof (@reset_is_fresh unit string
    (parseResultSet (Some (makeResultSet ["x"] [[Some "x"]; [Some "7"]])) newParser).2
    tt []) as (_ & _ & _ & _ & _ & _ & Hrearmed).
  apply (Hrearmed pageWithHeader (makeRow [Some "id"; Some "name"])
           [makeRow [Some "1"; Some "Alice"]]).
  - discriminate.
  - reflexivity.
  - reflexivity.
Defined.

(** ** The headers invariant *)

Lemma headersFromMeta_not_nil col columnInfo : headersFromMeta (col :: columnInfo) ≠ [].
Proof. discriminate. Qed.

Lemma initHeaders_headersNotEmpty columnInfo this :
  headersNotEmpty this → headersNotEmpty (initHeaders columnInfo this).
Proof.
  unfold headersNotEmpty. rewrite initHeaders_headers.
  destruct (headers this), columnInfo; try done.
Qed.

Lemma parseResultSet_headersNotEmpty resultSet this :
  headersNotEmpty this → headersNotEmpty (parseResultSet resultSet this).2.
Proof.
  destruct resultSet as [rs|]; [|done]. unfold headersNotEmpty at 2.
  rewrite parseResultSet_headers. apply initHeaders_headersNotEmpty.
Qed.

(** C9: in every state reachable from a new parser through [initHeaders],
    [parseResultSet], [parseResultSetWith] and [reset], the stored headers
    are [null] or a non-empty list, so [getHeaders] never returns the empty
    list; each of the four methods preserves this. *)
Theorem headers_null_or_nonempty :
  (∀ this, Reachable this → getHeaders this ≠ Some [])
  ∧ (∀ this, headersNotEmpty this →
       (∀ columnInfo, headersNotEmpty (initHeaders columnInfo this))
       ∧ (∀ resultSet, headersNotEmpty (parseResultSet resultSet this).2)
       ∧ (∀ S T resultSet (rowParser : RowParser S T) s,
            headersNotEmpty (parseResultSetWith resultSet rowParser this s).1.2)
       ∧ headersNotEmpty (reset this)).
Proof.
  assert (∀ this, headersNotEmpty this →
       (∀ columnInfo, headersNotEmpty (initHeaders columnInfo this))
       ∧ (∀ resultSet, headersNotEmpty (parseResultSet resultSet this).2)
       ∧ (∀ S T resultSet (rowParser : RowParser S T) s,
            headersNotEmpty (parseResultSetWith resultSet rowParser this s).1.2)
       ∧ headersNotEmpty (reset this)) as Hpreserved.
  { intros this Hinv. split; [|split; [|split]].
    - intros columnInfo. now apply initHeaders_headersNotEmpty.
    - intros resultSet. now apply parseResultSet_headersNotEmpty.
    - intros S T resultSet rowParser s. rewrite parseResultSetWith_state.
      now apply parseResultSet_headersNotEmpty.
    - discriminate. }
  split; [|exact Hpreserved].
  intros this Hreach. change (headersNotEmpty this).
  induction Hreach as [|columnInfo this _ IH|resultSet this _ IH
                       |S T resultSet rowParser s this _ IH|this _ IH].
  - discriminate.
  - now apply Hpreserved.
  - now apply Hpreserved.
  - now apply Hpreserved.
  - discriminate.
Qed.

Lemma headers_null_or_nonempty_witness :
  getHeaders (parseResultSet (Some (mkResultSet (Some (mkMetadata (Some []))) None))
                (initHeaders [] newParser)).2 ≠ Some [].
Proof.
  apply (proj1 headers_null_or_nonempty).
  apply Reachable_parseResultSet, Reachable_initHeaders, Reachable_new.
Defined.

(** ** [rowToObject] *)

Lemma rowToObject_snoc row hs h :
  rowToObject row (hs ++ [h]) =
    JsObject.set h (cellValue row (length hs)) (rowToObject row hs).
Proof.
  unfold rowToObject. rewrite imap_app, foldl_app. simpl.
  now rewrite Nat.add_0_r.
Qed.

Lemma rowToObject_cells row row' hs :
  (∀ i : nat, (i < length hs)%nat → cellValue row' i = cellValue row i) →
  rowToObject row' hs = rowToObject row hs.
Proof.
  induction hs as [|h hs IH] using rev_ind; intros Hcells; [done |].
  rewrite !rowToObject_snoc, length_app in *. simpl in *.
  rewrite IH, Hcells; [done | lia |]. intros i Hi. apply Hcells. lia.
Qed.

(** With pairwise distinct headers other than [__proto__] every
    assignment creates a new own property. *)
Lemma rowToObject_distinct row hs :
  NoDup hs → "__proto__" ∉ hs →
  rowToObject row hs = JsObject.mk false (imap (λ i h, (h, cellValue row i)) hs).
Proof.
  induction hs as [|h hs IH] using rev_ind; intros Hnodup Hproto; [done |].
  apply NoDup_app in Hnodup as (Hnodup & Hfresh & _).
  apply not_elem_of_app in Hproto as [Hproto Hh].
  assert (h ≠ "__proto__") as Hne by (intros ->; apply Hh, list_elem_of_here).
  rewrite rowToObject_snoc, IH by done.
  unfold JsObject.set, JsObject.hasOwn. simpl.
  rewrite bool_decide_eq_false_2.
  - rewrite (bool_decide_eq_false_2 (h = "__proto__")) by done. simpl.
    rewrite imap_app. simpl. now rewrite Nat.add_0_r.
  - rewrite fmap_imap. intros Hin.
    apply elem_of_lookup_imap in Hin as (i & h' & -> & Hi). simpl in *.
    apply (Hfresh h'); [eapply list_elem_of_lookup_2; eauto | apply list_elem_of_here].
Qed.

Lemma entries_Permutation obj : JsObject.entries obj ≡ₚ JsObject.props obj.
Proof.
  unfold JsObject.entries. rewrite merge_sort_Permutation.
  induction (JsObject.props obj) as [|p ps IH]; [done |].
  rewrite filter_cons. unfold JsObject.indexed at 1. simpl.
  destruct (JsObject.arrayIndex p.1) as [n|] eqn:Hidx; simpl.
  - constructor. exact IH.
  - rewrite <- Permutation_middle. constructor. exact IH.
Qed.

Lemma no_index_split (ps : list (string * option string)) :
  Forall (λ p, JsObject.arrayIndex p.1 = None) ps →
  omap JsObject.indexed ps = []
  ∧ filter (λ p, JsObject.arrayIndex p.1 = None) ps = ps.
Proof.
  induction 1 as [|p ps Hp _ [IHsorted IHrest]]; [done |]. split.
  - simpl. unfold JsObject.indexed at 1. now rewrite Hp.
  - rewrite filter_cons_True by done. now rewrite IHrest.
Qed.

Lemma entries_no_index obj :
  (∀ key, key ∈ (JsObject.props obj).*1 → JsObject.arrayIndex key = None) →
  JsObject.entries obj = JsObject.props obj.
Proof.
  intros Hkeys. unfold JsObject.entries.
  destruct (no_index_split (JsObject.props obj)) as [-> ->]; [|done].
  apply Forall_forall. intros p Hp. apply Hkeys.
  apply list_elem_of_fmap. eauto.
Qed.

Lemma getOwn_distinct (hs : list string) (f : nat → option string) (i : nat) h :
  NoDup hs → hs !! i = Some h →
  JsObject.getOwn h (JsObject.mk false (imap (λ i h, (h, f i)) hs)) = Some (f i).
Proof.
  intros Hnodup Hi. unfold JsObject.getOwn. simpl.
  destruct (list_find _ _) as [[j p]|] eqn:Hfind; simpl.
  - apply list_find_Some in Hfind as (Hj & Hp & _).
    rewrite list_lookup_imap in Hj.
    destruct (hs !! j) as [h'|] eqn:Hj'; simpl in Hj; [|done].
    inversion Hj; subst; simpl in *.
    now rewrite (NoDup_lookup _ _ _ _ Hnodup Hj' Hi).
  - apply list_find_None in Hfind.
    rewrite Forall_forall in Hfind. exfalso.
    apply (Hfind (h, f i)); [|done].
    apply elem_of_lookup_imap. eauto.
Qed.

(** *** Repeated header names: the last position wins *)

Lemma getOwn_cons b p ps key :
  JsObject.getOwn key (JsObject.mk b (p :: ps)) =
    if decide (p.1 = key) then Some p.2 else JsObject.getOwn key (JsObject.mk b ps).
Proof.
  unfold JsObject.getOwn. simpl. case_decide; simpl; [done |].
  now destruct (list_find _ ps) as [[j q]|].
Qed.

Lemma getOwn_hasOwn key obj :
  JsObject.hasOwn key obj = true ↔ is_Some (JsObject.getOwn key obj).
Proof.
  destruct obj as [b ps]. unfold JsObject.hasOwn. simpl.
  rewrite bool_decide_eq_true.
  induction ps as [|p ps IH]; [split; [by intros ?%elem_of_nil | by intros [? ?]] |].
  rewrite getOwn_cons, fmap_cons, elem_of_cons. case_decide; simpl.
  - split; [eauto | intros _; now left].
  - rewrite <- IH. split; [intros [->|?]; [done | done] | now right].
Qed.

Lemma hasOwn_cons b p ps key :
  JsObject.hasOwn key (JsObject.mk b (p :: ps)) =
    if decide (p.1 = key) then true else JsObject.hasOwn key (JsObject.mk b ps).
Proof.
  unfold JsObject.hasOwn. simpl. case_decide.
  - apply bool_decide_eq_true_2. subst. now left.
  - apply bool_decide_ext. rewrite elem_of_cons.
    split; [intros [Heq|Hin]; [congruence | done] | now right].
Qed.

Lemma getOwn_overwrite b key key' v ps :
  JsObject.getOwn key (JsObject.mk b (JsObject.overwrite key' v ps)) =
    if decide (key' = key)
    then (if JsObject.hasOwn key (JsObject.mk b ps) then Some v else None)
    else JsObject.getOwn key (JsObject.mk b ps).
Proof.
  induction ps as [|p ps IH].
  - simpl. now case_decide.
  - change (JsObject.overwrite key' v (p :: ps))
      with ((if decide (p.1 = key') then (key', v) else p)
            :: JsObject.overwrite key' v ps).
    rewrite !getOwn_cons, IH, hasOwn_cons.
    destruct (decide (p.1 = key')) as [Hp|Hp], (decide (key' = key)) as [Hk|Hk];
      simpl; subst; rewrite ?decide_True, ?decide_False by congruence; done.
Qed.

Lemma getOwn_snoc b key key' v ps :
  JsObject.getOwn key (JsObject.mk b (ps ++ [(key', v)])) =
    match JsObject.getOwn key (JsObject.mk b ps) with
    | Some found => Some found
    | None => if decide (key' = key) then Some v else None
    end.
Proof.
  induction ps as [|p ps IH].
  - change ([] ++ [(key', v)]) with [(key', v)]. rewrite getOwn_cons.
    change (JsObject.getOwn key (JsObject.mk b [])) with (@None (option string)).
    simpl. now destruct (decide (key' = key)).
  - rewrite <- app_comm_cons, !getOwn_cons, IH.
    destruct (decide (p.1 = key)); reflexivity.
Qed.

Lemma getOwn_set key key' v obj :
  key' ≠ "__proto__" →
  JsObject.getOwn key (JsObject.set key' v obj) =
    if decide (key' = key) then Some v else JsObject.getOwn key obj.
Proof.
  intros Hproto. destruct obj as [b ps]. unfold JsObject.set.
  destruct (JsObject.hasOwn key' _) eqn:Hown; simpl.
  - rewrite getOwn_overwrite. case_decide; [|done]. subst. now rewrite Hown.
  - rewrite (bool_decide_eq_false_2 (key' = "__proto__")) by done. simpl.
    rewrite getOwn_snoc. case_decide; subst.
    + destruct (JsObject.getOwn key _) eqn:Hget; [|done].
      assert (JsObject.hasOwn key (JsObject.mk b ps) = true) as Hown'
        by (apply getOwn_hasOwn; rewrite Hget; eauto).
      congruence.
    + now destruct (JsObject.getOwn key _).
Qed.

(** Whatever the repetitions, the entry of a header name holds the cell of
    the last position that carries the name. *)
Lemma rowToObject_last_wins row hs (i : nat) h :
  "__proto__" ∉ hs → hs !! i = Some h →
  (∀ j : nat, (i < j)%nat → hs !! j ≠ Some h) →
  JsObject.getOwn h (rowToObject row hs) = Some (cellValue row i).
Proof.
  revert i. induction hs as [|h' hs IH] using rev_ind; intros i Hproto Hi Hlast; [done |].
  apply not_elem_of_app in Hproto as [Hproto Hproto'].
  rewrite rowToObject_snoc, getOwn_set
    by (intros ->; apply Hproto', list_elem_of_here).
  destruct (decide (i < length hs)%nat) as [Hlt|Hge].
  - rewrite lookup_app_l in Hi by done.
    rewrite decide_False.
    + apply IH; [done | done |]. intros j Hj Hjh.
      apply (Hlast j Hj). apply lookup_app_l_Some. exact Hjh.
    + intros ->. apply (Hlast (length hs) Hlt).
      now rewrite lookup_app_r, Nat.sub_diag by lia.
  - assert (i = length hs) as ->.
    { apply lookup_lt_Some in Hi. rewrite length_app in Hi. simpl in Hi. lia. }
    rewrite lookup_app_r, Nat.sub_diag in Hi by lia. simpl in Hi.
    inversion Hi; subst. now rewrite decide_True.
Qed.

Lemma overwrite_keys key v ps : (JsObject.overwrite key v ps).*1 = ps.*1.
Proof.
  unfold JsObject.overwrite. induction ps as [|p ps IH]; [done |].
  rewrite !fmap_cons, IH. now destruct (decide (p.1 = key)) as [<-|].
Qed.

Lemma set_keys key v obj :
  key ≠ "__proto__" →
  (JsObject.props (JsObject.set key v obj)).*1 =
    if JsObject.hasOwn key obj
    then (JsObject.props obj).*1
    else (JsObject.props obj).*1 ++ [key].
Proof.
  intros Hproto. unfold JsObject.set.
  destruct (JsObject.hasOwn key obj); simpl; [apply overwrite_keys |].
  rewrite (bool_decide_eq_false_2 (key = "__proto__")) by done. simpl.
  now rewrite fmap_app.
Qed.

(** The own keys are the distinct header names. *)
Lemma rowToObject_keys row hs :
  "__proto__" ∉ hs →
  NoDup (JsObject.props (rowToObject row hs)).*1
  ∧ ∀ key, key ∈ (JsObject.props (rowToObject row hs)).*1 ↔ key ∈ hs.
Proof.
  induction hs as [|h hs IH] using rev_ind; intros Hproto.
  - split; [constructor | done].
  - apply not_elem_of_app in Hproto as [Hproto Hh].
    destruct (IH Hproto) as [Hnodup Hkeys].
    rewrite rowToObject_snoc, set_keys
      by (intros ->; apply Hh, list_elem_of_here).
    unfold JsObject.hasOwn. case_bool_decide as Hown.
    + split; [done |]. intros key.
      rewrite elem_of_app, list_elem_of_singleton, Hkeys.
      split; [now left | intros [Hin| ->]; [done | now apply Hkeys]].
    + split.
      * apply NoDup_app. split; [done |]. split; [|apply NoDup_singleton].
        intros key Hkey Hsingle. apply list_elem_of_singleton in Hsingle.
        now subst.
      * intros key. now rewrite !elem_of_app, Hkeys.
Qed.

Lemma rowToObject_entries_length row hs :
  "__proto__" ∉ hs →
  length (JsObject.entries (rowToObject row hs)) = length (remove_dups hs).
Proof.
  intros Hproto. destruct (rowToObject_keys row hs Hproto) as [Hnodup Hkeys].
  rewrite entries_Permutation, <- (length_fmap fst).
  apply Permutation_length, NoDup_Permutation; [done | apply NoDup_remove_dups |].
  intros key. now rewrite Hkeys, elem_of_remove_dups.
Qed.

(** C3, as stated, fails: with a repeated header name the second
    assignment overwrites the first, the object has one entry and it holds
    the cell of the last position. *)
Lemma rowToObject_duplicate_headers :
  JsObject.entries (rowToObject (makeRow [Some "x"; Some "y"]) ["a"; "a"])
    = [("a", Some "y")]
  ∧ length (JsObject.entries (rowToObject (makeRow [Some "x"; Some "y"]) ["a"; "a"]))
    ≠ length ["a"; "a"].
Proof. split; [vm_compute; reflexivity | vm_compute; discriminate]. Qed.

(** A header [__proto__] creates no entry: the assignment goes to the
    inherited accessor. *)
Example rowToObject_proto_header :
  JsObject.entries (rowToObject (makeRow [Some "x"; Some "y"]) ["__proto__"; "b"])
  = [("b", Some "y")].
Proof. vm_compute. reflexivity. Qed.

(** Array-index header names are listed first, in numeric order. *)
Example rowToObject_index_headers :
  JsObject.entries (rowToObject (makeRow [Some "x"; Some "y"; Some "z"]) ["b"; "10"; "9"])
  = [("9", Some "z"); ("10", Some "y"); ("b", Some "x")].
Proof. vm_compute. reflexivity. Qed.

(** C3 (amended): for any headers, cells at positions beyond the headers
    do not matter.  For headers none of which is [__proto__], [rowToObject]
    returns an object with one entry per distinct header name, the entry of
    a name holding the cell value ([null] when absent) of the last position
    that carries the name.  Hence, for pairwise distinct headers, exactly
    one entry per header position, the entry of the header at position [i]
    holding the cell value at [i] when present and [null] otherwise, in
    header order when no header is an array-index string; a row shorter
    than the headers yields [null] for the trailing headers. *)
Theorem rowToObject_spec (row : Row) (hs : list string) :
  (∀ row', (∀ i : nat, (i < length hs)%nat → cellValue row' i = cellValue row i) →
     rowToObject row' hs = rowToObject row hs)
  ∧ ("__proto__" ∉ hs →
     length (JsObject.entries (rowToObject row hs)) = length (remove_dups hs)
     ∧ (∀ (i : nat) h,
          hs !! i = Some h → (∀ j : nat, (i < j)%nat → hs !! j ≠ Some h) →
          JsObject.getOwn h (rowToObject row hs) = Some (cellValue row i))
     ∧ (NoDup hs →
          JsObject.entries (rowToObject row hs)
            ≡ₚ imap (λ i h, (h, cellValue row i)) hs
          ∧ length (JsObject.entries (rowToObject row hs)) = length hs
          ∧ ((∀ h, h ∈ hs → JsObject.arrayIndex h = None) →
             JsObject.entries (rowToObject row hs)
             = imap (λ i h, (h, cellValue row i)) hs)
          ∧ (∀ (i : nat) h, hs !! i = Some h →
               JsObject.getOwn h (rowToObject row hs) = Some (cellValue row i))
          ∧ (∀ (i : nat) h, hs !! i = Some h → (length (cells row) ≤ i)%nat →
               JsObject.getOwn h (rowToObject row hs) = Some None))).
Proof.
  split; [intros row'; apply rowToObject_cells |].
  intros Hproto.
  split; [now apply rowToObject_entries_length |].
  split; [intros i h; now apply rowToObject_last_wins |].
  intros Hnodup.
  pose proof (rowToObject_distinct row hs Hnodup Hproto) as Hobj.
  assert (JsObject.entries (rowToObject row hs)
          ≡ₚ imap (λ i h, (h, cellValue row i)) hs) as Hperm.
  { rewrite entries_Permutation. now rewrite Hobj. }
  split; [exact Hperm |]. split; [|split; [|split]].
  - now rewrite Hperm, length_imap.
  - intros Hidx. rewrite entries_no_index; rewrite Hobj; [done |]. simpl.
    intros key Hkey. rewrite fmap_imap in Hkey.
    apply elem_of_lookup_imap in Hkey as (i & h & -> & Hi). simpl.
    apply Hidx. eapply list_elem_of_lookup_2; eauto.
  - intros i h Hi. rewrite Hobj. now apply getOwn_distinct.
  - intros i h Hi Hshort. rewrite Hobj.
    rewrite (getOwn_distinct hs (cellValue row) i h Hnodup Hi).
    now rewrite cellValue_beyond.
Qed.

Lemma rowToObject_spec_witness :
  JsObject.entries (rowToObject (makeRow [Some "x"; Some "y"]) ["a"; "b"; "c"])
    = [("a", Some "x"); ("b", Some "y"); ("c", None)]
  ∧ rowToObject (makeRow [Some "x"; Some "y"; None; Some "extra"]) ["a"; "b"; "c"]
    = rowToObject (makeRow [Some "x"; Some "y"]) ["a"; "b"; "c"]
  ∧ rowToObject (makeRow [Some "x"; Some "extra"]) ["__proto__"]
    = rowToObject (makeRow [Some "x"]) ["__proto__"].
Proof.
  assert (NoDup ["a"; "b"; "c"]) as Hnodup
    by (apply (bool_decide_unpack _); vm_compute; exact I).
  assert ("__proto__" ∉ ["a"; "b"; "c"]) as Hproto
    by (apply (bool_decide_unpack _); vm_compute; exact I).
  pose proof (rowToObject_spec (makeRow [Some "x"; Some "y"]) ["a"; "b"; "c"])
    as (Hextra & Hplain).
  destruct (Hplain Hproto) as (_ & _ & Hdistinct).
  destruct (Hdistinct Hnodup) as (_ & _ & Horder & _ & _).
  split; [|split].
  - apply Horder. intros h Hh.
    apply list_elem_of_In in Hh. simpl in Hh.
    destruct Hh as [<-|[<-|[<-|[]]]]; reflexivity.
  - apply Hextra. intros i Hi. simpl in Hi.
    destruct i as [|[|[|i]]]; [reflexivity | reflexivity | reflexivity | lia].
  - apply (proj1 (rowToObject_spec (makeRow [Some "x"]) ["__proto__"])).
    intros i Hi. simpl in Hi. destruct i as [|i]; [reflexivity | lia].
Defined.

Example rowToObject_repeated_header_last_wins :
  JsObject.getOwn "a" (rowToObject (makeRow [Some "x"; Some "y"; Some "z"]) ["a"; "b"; "a"])
  = Some (Some "z").
Proof. vm_compute. reflexivity. Qed.

(** * Further properties of the parser *)

(** ** Headers through a session *)

Lemma parseResultSet_headers_stable resultSet this hs :
  headers this = Some hs → headers (parseResultSet resultSet this).2 = Some hs.
Proof.
  intros Hhs. destruct resultSet as [rs|]; [|done].
  rewrite parseResultSet_headers. now apply initHeaders_headers_stable.
Qed.

Lemma parseResultSet_same_rows rs rs' this hs :
  headers this = Some hs → rawRowsOf rs = rawRowsOf rs' →
  parseResultSet (Some rs) this = parseResultSet (Some rs') this.
Proof.
  intros Hhs Hrows.
  rewrite (parseResultSet_ready rs this hs), (parseResultSet_ready rs' this hs)
    by now apply initHeaders_headers_stable.
  now rewrite Hrows, !(initHeaders_set _ _ _ Hhs).
Qed.

Section SessionHeaders.
Context {S T : Type}.
Implicit Types (c : Call S T) (calls : list (Call S T)) (st : Parser * S).

Lemma call_headers_stable c st hs :
  isReset c = false →
  headers st.1 = Some hs → headers (call c st).2.1 = Some hs.
Proof.
  intros Hc Hhs. destruct c as [columnInfo|resultSet|resultSet rowParser|]; simpl.
  - now apply initHeaders_headers_stable.
  - pose proof (parseResultSet_headers_stable resultSet _ _ Hhs) as Hstable.
    now destruct (parseResultSet resultSet st.1).
  - pose proof (parseResultSet_headers_stable resultSet _ _ Hhs) as Hstable.
    rewrite <- (parseResultSetWith_state resultSet rowParser st.1 st.2) in Hstable.
    now destruct (parseResultSetWith resultSet rowParser st.1 st.2) as [[? ?] ?].
  - discriminate.
Qed.

Lemma call_parseResultSet_state resultSet this (s : S) :
  (call (T := T) (CallParseResultSet resultSet) (this, s)).2
  = ((parseResultSet resultSet this).2, s).
Proof. simpl. now destruct (parseResultSet resultSet this). Qed.

(** X1: once headers are stored, no call other than [reset] changes them,
    and the metadata of a later batch is not looked at: two batches with
    the same rows give the same rows and the same instance, whatever
    their columns. *)
Theorem headers_fixed_in_session calls st hs :
  session calls → headers st.1 = Some hs →
  getHeaders (after calls st).1 = Some hs
  ∧ ∀ rs rs', rawRowsOf rs = rawRowsOf rs' →
      parseResultSet (Some rs) (after calls st).1
      = parseResultSet (Some rs') (after calls st).1.
Proof.
  intros Hsession Hhs.
  assert (headers (after calls st).1 = Some hs) as Hafter.
  { unfold after. revert st Hhs.
    induction Hsession as [|c calls Hc _ IH]; intros st Hhs; simpl; [done |].
    apply IH. now apply call_headers_stable. }
  split; [exact Hafter |].
  intros rs rs'. now apply parseResultSet_same_rows with hs.
Qed.

(** X2: after a sequence of [parseResultSet] calls the headers are those
    already stored or, on an instance without headers, the ones built
    from the first batch whose metadata has columns; they stay [null] when
    no batch has any. *)
Theorem first_metadata_wins (batches : list ResultSet) (this : Parser) (s : S) :
  getHeaders
    (after ((λ rs, CallParseResultSet (T := T) (Some rs)) <$> batches) (this, s)).1
  = match headers this with
    | Some hs => Some hs
    | None =>
      headersFromMeta <$>
        head (filter (λ columnInfo, (0 < length columnInfo)%nat) (metaOf <$> batches))
    end.
Proof.
  unfold getHeaders. revert this.
  induction batches as [|rs batches IH]; intros this.
  - simpl. now destruct (headers this).
  - rewrite !fmap_cons.
    change (after (CallParseResultSet (T := T) (Some rs) :: ?calls) ?st)
      with (after calls (call (T := T) (CallParseResultSet (Some rs)) st).2).
    rewrite call_parseResultSet_state, IH, parseResultSet_headers,
      initHeaders_headers, filter_cons.
    destruct (headers this) as [hs|]; [now destruct (metaOf rs) |].
    destruct (metaOf rs) as [|col columnInfo]; reflexivity.
Qed.

End SessionHeaders.

Lemma headers_fixed_in_session_witness :
  getHeaders
    (after (S := unit) (T := string)
       [CallParseResultSet (Some (makeResultSet ["x"; "y"] [[Some "1"; Some "2"]]));
        CallInitHeaders (makeColumnInfo ["z"])]
       (initHeaders (makeColumnInfo ["id"; "name"]) newParser, tt)).1
  = Some ["id"; "name"].
Proof.
  apply (headers_fixed_in_session (S := unit) (T := string)
           [CallParseResultSet (Some (makeResultSet ["x"; "y"] [[Some "1"; Some "2"]]));
            CallInitHeaders (makeColumnInfo ["z"])]
           (initHeaders (makeColumnInfo ["id"; "name"]) newParser, tt)
           ["id"; "name"]).
  - repeat constructor.
  - reflexivity.
Defined.

Example second_batch_metadata_ignored :
  JsObject.entries <$>
    (parseResultSet (Some (makeResultSet ["x"; "y"] [[Some "1"; Some "2"]]))
       (parseResultSet (Some (makeResultSet ["id"; "name"] [])) newParser).2).1
  = [[("id", Some "1"); ("name", Some "2")]].
Proof. vm_compute. reflexivity. Qed.

(** ** The header-row flag *)

Lemma initHeaders_None columnInfo this :
  headers (initHeaders columnInfo this) = None →
  columnInfo = [] ∧ initHeaders columnInfo this = this.
Proof.
  rewrite initHeaders_headers. unfold initHeaders.
  destruct (headers this), columnInfo; done.
Qed.

(** X3: in every state reachable from a new parser the header-row flag is
    set only while headers are stored. *)
Theorem dropped_flag_needs_headers (this : Parser) :
  Reachable this → headerRowDropped this = true → is_Some (getHeaders this).
Proof.
  assert (∀ resultSet this,
            (headerRowDropped this = true → is_Some (headers this)) →
            headerRowDropped (parseResultSet resultSet this).2 = true →
            is_Some (headers (parseResultSet resultSet this).2)) as Hparse.
  { intros [rs|] this0 Hinv; [|done].
    rewrite parseResultSet_flag, parseResultSet_headers.
    destruct (headers (initHeaders (metaOf rs) this0)) as [hs|] eqn:Hhs; [eauto |].
    intros Hflag. destruct (initHeaders_None _ _ Hhs) as [_ Hsame].
    rewrite Hsame in Hhs. destruct (Hinv Hflag) as [hs Hhs']. congruence. }
  unfold getHeaders.
  induction 1 as [|columnInfo this _ IH|resultSet this _ IH
                  |S T resultSet rowParser s this _ IH|this _ IH].
  - discriminate.
  - rewrite initHeaders_flag. intros Hflag.
    destruct (IH Hflag) as [hs Hhs].
    rewrite (initHeaders_headers_stable _ _ _ Hhs). eauto.
  - now apply Hparse.
  - rewrite parseResultSetWith_state. now apply Hparse.
  - discriminate.
Qed.

Lemma dropped_flag_needs_headers_witness :
  is_Some (getHeaders (parseResultSet (Some pageWithHeader) newParser).2).
Proof.
  apply (dropped_flag_needs_headers (parseResultSet (Some pageWithHeader) newParser).2).
  - apply Reachable_parseResultSet, Reachable_new.
  - reflexivity.
Defined.

(** X4: the rows a [parseResultSet] call returns, by count.  Without
    headers (none stored, none in the batch) it returns nothing, whatever
    rows the batch holds, and changes nothing.  With headers it returns
    one object per row of the batch, except the header row when it
    suppresses one, so at most one row is missing; the flag afterwards is
    the flag before or the fact that this call suppressed a row; and a
    call suppresses exactly when the flag is clear and the batch starts
    with a row that [isHeaderRow] accepts. *)
Theorem parseResultSet_row_count (rs : ResultSet) (this : Parser) :
  (headers (initHeaders (metaOf rs) this) = None →
     parseResultSet (Some rs) this = ([], this))
  ∧ (is_Some (headers (initHeaders (metaOf rs) this)) →
     (length (parseResultSet (Some rs) this).1
      + (if headerRowSuppressed (Some rs) this then 1 else 0))%nat
     = length (rawRowsOf rs))
  ∧ headerRowDropped (parseResultSet (Some rs) this).2
    = headerRowDropped this || headerRowSuppressed (Some rs) this
  ∧ (headerRowSuppressed (Some rs) this = true ↔
     headerRowDropped this = false
     ∧ ∃ hs first rest,
         headers (initHeaders (metaOf rs) this) = Some hs
         ∧ rawRowsOf rs = first :: rest
         ∧ isHeaderRow first hs = true).
Proof.
  rewrite headerRowSuppressed_skipHeader, parseResultSet_flag.
  destruct (headers (initHeaders (metaOf rs) this)) as [hs|] eqn:Hhs.
  - rewrite (parseResultSet_ready _ _ _ Hhs).
    split; [done |]. split; [|split; [done |]].
    + intros _. unfold skipHeaderOf.
      destruct (headerRowDropped this); simpl; [rewrite length_fmap; lia |].
      destruct (rawRowsOf rs) as [|first rest]; [simpl; lia |].
      destruct (isHeaderRow first hs); simpl; rewrite length_fmap; simpl;
        rewrite ?drop_0; lia.
    + unfold skipHeaderOf. split.
      * intros Hskip. apply andb_true_iff in Hskip as [Hflag Hfirst].
        apply negb_true_iff in Hflag. split; [done |].
        destruct (rawRowsOf rs) as [|first rest]; [done |]. eauto 6.
      * intros (Hflag & hs' & first & rest & Hhs' & Hrows & Hfirst).
        inversion Hhs'; subst. now rewrite Hflag, Hrows, Hfirst.
  - split.
    + intros _. rewrite (parseResultSet_unset _ _ Hhs).
      now destruct (initHeaders_None _ _ Hhs) as [_ ->].
    + split; [now intros [? ?] |]. split; [now rewrite orb_false_r |].
      split; [done |]. now intros (_ & hs & first & rest & Hhs' & _).
Qed.

Lemma parseResultSet_row_count_witness :
  (length (parseResultSet (Some pageWithHeader) newParser).1
   + (if headerRowSuppressed (Some pageWithHeader) newParser then 1 else 0))%nat
  = length (rawRowsOf pageWithHeader)
  ∧ parseResultSet (Some (mkResultSet None (Some [makeRow [Some "x"]]))) newParser
    = ([], newParser).
Proof.
  split.
  - apply (proj1 (proj2 (parseResultSet_row_count pageWithHeader newParser))).
    now exists ["id"; "name"].
  - apply (proj1 (parseResultSet_row_count
                    (mkResultSet None (Some [makeRow [Some "x"]])) newParser)).
    reflexivity.
Defined.

(** ** Pages of one query *)

(** X5: pages compose.  When the first page leaves the instance with
    headers and with the header-row flag set (it began with the header
    row, or the flag was set before), parsing the second page next returns
    the rest of what one call on the concatenated rows returns, and leaves
    the same instance; the metadata of the second page plays no part. *)
Theorem pages_concatenate (page1 page2 whole : ResultSet) (this : Parser) :
  is_Some (headers (parseResultSet (Some page1) this).2) →
  headerRowDropped (parseResultSet (Some page1) this).2 = true →
  metaOf whole = metaOf page1 →
  rawRowsOf whole = rawRowsOf page1 ++ rawRowsOf page2 →
  parseResultSet (Some whole) this =
    ((parseResultSet (Some page1) this).1
       ++ (parseResultSet (Some page2) (parseResultSet (Some page1) this).2).1,
     (parseResultSet (Some page2) (parseResultSet (Some page1) this).2).2).
Proof.
  intros [hs Hhs] Hflag Hmeta Hrows.
  rewrite parseResultSet_headers in Hhs.
  assert (headers (initHeaders (metaOf whole) this) = Some hs) as Hwhole
    by now rewrite Hmeta.
  rewrite (parseResultSet_ready whole this hs Hwhole), Hmeta, Hrows.
  pose proof (parseResultSet_ready page1 this hs Hhs) as Hpage1.
  destruct (skipHeaderOf (headerRowDropped this) (rawRowsOf page1) hs) eqn:Hskip.
  - rewrite Hpage1. cbn [fst snd].
    rewrite (parseResultSet_ready page2 (mkParser (Some hs) true) hs) by reflexivity.
    unfold skipHeaderOf in *.
    destruct (headerRowDropped this); [discriminate |].
    destruct (rawRowsOf page1) as [|first rest]; [discriminate |].
    simpl in *. rewrite Hskip. simpl. now rewrite drop_0, fmap_app.
  - rewrite Hpage1 in Hflag |- *. cbn [fst snd] in *.
    rewrite initHeaders_flag in Hflag.
    rewrite (parseResultSet_ready page2 (initHeaders (metaOf page1) this) hs)
      by now apply initHeaders_headers_stable.
    rewrite initHeaders_flag. unfold skipHeaderOf. rewrite Hflag. simpl.
    rewrite fmap_app. f_equal.
    symmetry. now apply initHeaders_set with hs.
Qed.

Lemma pages_concatenate_witness :
  parseResultSet
    (Some (makeResultSet ["id"; "name"]
       [[Some "id"; Some "name"]; [Some "1"; Some "Alice"]; [Some "2"; Some "Bob"]]))
    newParser
  = ((parseResultSet (Some pageWithHeader) newParser).1
       ++ (parseResultSet (Some (mkResultSet None (Some [makeRow [Some "2"; Some "Bob"]])))
             (parseResultSet (Some pageWithHeader) newParser).2).1,
     (parseResultSet (Some (mkResultSet None (Some [makeRow [Some "2"; Some "Bob"]])))
        (parseResultSet (Some pageWithHeader) newParser).2).2).
Proof.
  apply (pages_concatenate pageWithHeader
           (mkResultSet None (Some [makeRow [Some "2"; Some "Bob"]]))
           (makeResultSet ["id"; "name"]
              [[Some "id"; Some "name"]; [Some "1"; Some "Alice"]; [Some "2"; Some "Bob"]])
           newParser).
  - exists ["id"; "name"]. reflexivity.
  - reflexivity.
  - reflexivity.
  - reflexivity.
Defined.

(** A second page that begins with a header-equal row while the flag is
    still clear loses that row. *)
Example late_header_row_is_dropped :
  JsObject.entries <$>
    (parseResultSet (Some (makeResultSet ["id"] [[Some "id"]; [Some "2"]]))
       (parseResultSet (Some (makeResultSet ["id"] [[Some "1"]])) newParser).2).1
  = [[("id", Some "2")]].
Proof. vm_compute. reflexivity. Qed.

(** ** Placeholder headers *)

Lemma numberToString_inj (i j : nat) : numberToString i = numberToString j → i = j.
Proof.
  unfold numberToString. intros Heq.
  apply Unsigned.to_uint_inj.
  assert (Some (Nat.to_uint i) = Some (Nat.to_uint j)) as Hsome
    by now rewrite <- !NilEmpty.usu, Heq.
  now inversion Hsome.
Qed.

Lemma headersFromMeta_nameless columnInfo :
  Forall (λ col, Name col = None) columnInfo →
  headersFromMeta columnInfo = imap (λ i _, "col_" +:+ numberToString i) columnInfo.
Proof.
  intros Hnameless. unfold headersFromMeta. apply imap_ext.
  intros i col Hcol. unfold headerOf.
  now rewrite (proj1 (Forall_lookup _ _) Hnameless i col Hcol).
Qed.

(** X6: when no column has a name, the generated headers [col_0],
    [col_1], ... are pairwise distinct, and every row decodes to one entry
    per column, in column order, holding that column's cell value or
    [null]. *)
Theorem nameless_columns_decode (columnInfo : list ColumnInfo) (row : Row) :
  Forall (λ col, Name col = None) columnInfo →
  NoDup (headersFromMeta columnInfo)
  ∧ JsObject.entries (rowToObject row (headersFromMeta columnInfo))
    = imap (λ i _, ("col_" +:+ numberToString i, cellValue row i)) columnInfo.
Proof.
  intros Hnameless. rewrite (headersFromMeta_nameless _ Hnameless).
  assert (NoDup (imap (λ (i : nat) (_ : ColumnInfo), "col_" +:+ numberToString i)
                   columnInfo)) as Hnodup.
  { apply NoDup_alt. intros i j h Hi Hj.
    rewrite list_lookup_imap in Hi, Hj.
    destruct (columnInfo !! i), (columnInfo !! j); simpl in *; try done.
    inversion Hi as [Hi']. inversion Hj as [Hj']. rewrite <- Hj' in Hi'.
    apply (inj (String.app "col_")) in Hi'. now apply numberToString_inj. }
  split; [exact Hnodup |].
  assert (∀ h, h ∈ imap (λ (i : nat) (_ : ColumnInfo), "col_" +:+ numberToString i)
                   columnInfo →
               h ≠ "__proto__" ∧ JsObject.arrayIndex h = None) as Hplain.
  { intros h Hh. apply elem_of_lookup_imap in Hh as (i & col & -> & _).
    split; [discriminate | reflexivity]. }
  rewrite rowToObject_distinct; [|exact Hnodup|].
  - rewrite entries_no_index; simpl.
    + apply list_eq. intros i. rewrite !list_lookup_imap.
      now destruct (columnInfo !! i).
    + intros key Hkey. rewrite fmap_imap in Hkey.
      apply elem_of_lookup_imap in Hkey as (i & h & -> & Hi). simpl.
      apply Hplain. eapply list_elem_of_lookup_2; eauto.
  - intros Hproto. now destruct (Hplain _ Hproto).
Qed.

Lemma nameless_columns_decode_witness :
  JsObject.entries
    (rowToObject (makeRow [Some "x"])
       (headersFromMeta [mkColumnInfo None; mkColumnInfo None]))
  = [("col_0", Some "x"); ("col_1", None)].
Proof.
  assert (Forall (λ col, Name col = None) [mkColumnInfo None; mkColumnInfo None])
    as Hnameless by (repeat constructor).
  apply (proj2 (nameless_columns_decode [mkColumnInfo None; mkColumnInfo None]
                  (makeRow [Some "x"]) Hnameless)).
Defined.

(** A placeholder can coincide with the name of another column. *)
Example placeholder_collides_with_name :
  headersFromMeta [mkColumnInfo (Some "col_1"); mkColumnInfo None] = ["col_1"; "col_1"].
Proof. reflexivity. Qed.

(** ** The shape of a header row *)

Lemma isHeaderRow_true row hs :
  isHeaderRow row hs = true ↔
    cells row ≠ []
    ∧ ∀ (i : nat) header, hs !! i = Some header → cellValue row i = Some header.
Proof.
  unfold isHeaderRow, cells.
  destruct (Data row) as [[|datum data]|] eqn:Hdata; simpl.
  - split; [done | now intros [? _]].
  - rewrite every_spec. split.
    + intros Hall. split; [done |]. intros i header Hi.
      specialize (Hall i header Hi). now apply bool_decide_eq_true in Hall.
    + intros [_ Hall] i header Hi. apply bool_decide_eq_true. eauto.
  - split; [done | now intros [? _]].
Qed.

(** X7: a row is a header row exactly when it has a cell and its cell
    values begin with the header strings; cells after the last header are
    not looked at, and a row with fewer cells than headers is never a
    header row. *)
Theorem isHeaderRow_prefix (row : Row) (hs : list string) :
  (isHeaderRow row hs = true ↔
     cells row ≠ [] ∧ (Some <$> hs) `prefix_of` (VarCharValue <$> cells row))
  ∧ (isHeaderRow row hs = true → (length hs ≤ length (cells row))%nat).
Proof.
  assert (isHeaderRow row hs = true ↔
     cells row ≠ [] ∧ (Some <$> hs) `prefix_of` (VarCharValue <$> cells row)) as Hiff.
  { rewrite isHeaderRow_true. split; intros [Hcells Hall]; (split; [done |]).
    - exists (drop (length hs) (VarCharValue <$> cells row)).
      rewrite <- (take_drop (length hs) (VarCharValue <$> cells row)) at 1.
      f_equal. apply list_eq. intros i.
      destruct (decide (i < length hs)%nat) as [Hlt|Hge].
      + rewrite lookup_take_lt, !list_lookup_fmap by done.
        destruct (lookup_lt_is_Some_2 hs i Hlt) as [header Hi].
        specialize (Hall i header Hi). rewrite cellValue_cells in Hall.
        rewrite Hi. simpl. destruct (cells row !! i) as [datum|]; simpl in *;
          congruence.
      + rewrite lookup_take_ge by lia.
        symmetry. apply lookup_ge_None_2. rewrite length_fmap. lia.
    - destruct Hall as [extra Hextra]. intros i header Hi.
      rewrite cellValue_cells.
      assert ((VarCharValue <$> cells row) !! i = Some (Some header)) as Hcell.
      { rewrite Hextra. apply lookup_app_l_Some. now rewrite list_lookup_fmap, Hi. }
      rewrite list_lookup_fmap in Hcell.
      destruct (cells row !! i) as [datum|]; simpl in *; congruence. }
  split; [exact Hiff |].
  intros [_ [extra Hextra]]%Hiff.
  apply (f_equal length) in Hextra.
  rewrite length_app, !length_fmap in Hextra. lia.
Qed.

Lemma isHeaderRow_prefix_witness :
  isHeaderRow (makeRow [Some "id"; Some "name"; Some "extra"]) ["id"; "name"] = true.
Proof.
  apply (proj1 (isHeaderRow_prefix
           (makeRow [Some "id"; Some "name"; Some "extra"]) ["id"; "name"])).
  split.
  - discriminate.
  - exists [Some "extra"]. reflexivity.
Defined.

Lemma last_occurrence (hs : list string) h :
  h ∈ hs →
  ∃ i : nat, hs !! i = Some h ∧ ∀ j : nat, (i < j)%nat → hs !! j ≠ Some h.
Proof.
  induction hs as [|h' hs IH] using rev_ind; [by intros ?%elem_of_nil |].
  intros Hin. destruct (decide (h' = h)) as [->|Hne].
  - exists (length hs). split.
    + now rewrite lookup_app_r, Nat.sub_diag by lia.
    + intros j Hj. rewrite lookup_ge_None_2; [done |].
      rewrite length_app. simpl. lia.
  - apply elem_of_app in Hin as [Hin|Hin];
      [|apply list_elem_of_singleton in Hin; congruence].
    destruct (IH Hin) as (i & Hi & Hlast). exists i. split.
    + now apply lookup_app_l_Some.
    + intros j Hj Hjh. apply lookup_app_Some in Hjh as [Hjh|[_ Hjh]].
      * now apply (Hlast j Hj).
      * destruct (j - length hs)%nat; simpl in Hjh; [congruence | done].
Qed.

(** X8: decoding a header row (as happens once the flag is set) gives,
    for every header name, that name as its own value. *)
Theorem header_row_decodes_to_itself (row : Row) (hs : list string) :
  isHeaderRow row hs = true → "__proto__" ∉ hs →
  ∀ h, h ∈ hs → JsObject.getOwn h (rowToObject row hs) = Some (Some h).
Proof.
  intros [_ Hcells]%isHeaderRow_true Hproto h Hin.
  destruct (last_occurrence hs h Hin) as (i & Hi & Hlast).
  rewrite (rowToObject_last_wins row hs i h Hproto Hi Hlast).
  now rewrite (Hcells i h Hi).
Qed.

Lemma header_row_decodes_to_itself_witness :
  JsObject.getOwn "name" (rowToObject (makeRow [Some "id"; Some "name"]) ["id"; "name"])
  = Some (Some "name").
Proof.
  apply (header_row_decodes_to_itself (makeRow [Some "id"; Some "name"]) ["id"; "name"]).
  - reflexivity.
  - apply (bool_decide_unpack _). vm_compute. exact I.
  - apply list_elem_of_further, list_elem_of_here.
Defined.

(** ** The keys of a decoded row *)

(** X9: whatever the row, the decoded object has an own property for
    exactly the header names (headers other than [__proto__]); all rows
    of a batch therefore carry the same keys. *)
Theorem rowToObject_own_keys (row : Row) (hs : list string) (key : string) :
  "__proto__" ∉ hs →
  (is_Some (JsObject.getOwn key (rowToObject row hs)) ↔ key ∈ hs)
  ∧ ∀ row', (JsObject.props (rowToObject row' hs)).*1
            = (JsObject.props (rowToObject row hs)).*1.
Proof.
  intros Hproto. split.
  - rewrite <- getOwn_hasOwn. unfold JsObject.hasOwn.
    rewrite bool_decide_eq_true.
    now apply rowToObject_keys.
  - intros row'.
    induction hs as [|h hs IH] using rev_ind; [done |].
    apply not_elem_of_app in Hproto as [Hproto Hh].
    rewrite !rowToObject_snoc, !set_keys
      by (intros ->; apply Hh, list_elem_of_here).
    unfold JsObject.hasOwn. rewrite (IH Hproto). now case_bool_decide.
Qed.

Lemma rowToObject_own_keys_witness :
  is_Some (JsObject.getOwn "b" (rowToObject (makeRow []) ["a"; "b"])).
Proof.
  apply (proj1 (rowToObject_own_keys (makeRow []) ["a"; "b"] "b"
                  ltac:(apply (bool_decide_unpack _); vm_compute; exact I))).
  apply list_elem_of_further, list_elem_of_here.
Defined.

(** ** Rows built by the test helpers *)

Lemma headersFromMeta_makeColumnInfo names :
  headersFromMeta (makeColumnInfo names) = names.
Proof.
  unfold headersFromMeta, makeColumnInfo. rewrite imap_fmap.
  apply list_eq. intros i. rewrite list_lookup_imap.
  now destruct (names !! i).
Qed.

Lemma cellValue_makeRow values (i : nat) :
  cellValue (makeRow values) i = mjoin (values !! i).
Proof.
  unfold cellValue, makeRow. simpl. rewrite list_lookup_fmap.
  now destruct (values !! i).
Qed.

Lemma isHeaderRow_makeRow_headers names :
  names ≠ [] → isHeaderRow (makeRow (Some <$> names)) names = true.
Proof.
  intros Hnames. apply isHeaderRow_true. split.
  - unfold cells, makeRow. simpl. now destruct names.
  - intros i header Hi. now rewrite cellValue_makeRow, list_lookup_fmap, Hi.
Qed.

(** X10: the first page of a query, end to end.  For column names that
    are pairwise distinct, not [__proto__] and not array-index strings, a
    new parser given the header row followed by data rows returns one
    object per data row, in order, whose entries pair each column name
    with the value at its position ([null] when the value is missing or
    the row is short); afterwards the headers are the column names and
    the flag is set. *)
Theorem parse_first_page (names : list string) (dataRows : list (list (option string))) :
  names ≠ [] → NoDup names → "__proto__" ∉ names →
  (∀ h, h ∈ names → JsObject.arrayIndex h = None) →
  JsObject.entries <$>
    (parseResultSet (Some (makeResultSet names ((Some <$> names) :: dataRows)))
       newParser).1
  = (λ values, imap (λ i h, (h, mjoin (values !! i))) names) <$> dataRows
  ∧ (parseResultSet (Some (makeResultSet names ((Some <$> names) :: dataRows)))
       newParser).2
    = mkParser (Some names) true.
Proof.
  intros Hnames Hnodup Hproto Hplain.
  assert (headers (initHeaders
            (metaOf (makeResultSet names ((Some <$> names) :: dataRows))) newParser)
          = Some names) as Hhs.
  { change (metaOf (makeResultSet names ((Some <$> names) :: dataRows)))
      with (makeColumnInfo names).
    rewrite initHeaders_headers.
    change (headers newParser) with (@None (list string)).
    destruct (makeColumnInfo names) as [|col columnInfo] eqn:Hcols.
    - destruct names; [done | discriminate].
    - now rewrite <- Hcols, headersFromMeta_makeColumnInfo. }
  rewrite (parseResultSet_ready _ _ _ Hhs).
  unfold skipHeaderOf, rawRowsOf, makeResultSet. simpl.
  rewrite (isHeaderRow_makeRow_headers names Hnames). simpl.
  split; [|done].
  rewrite drop_0, <- !list_fmap_compose. apply list_fmap_ext.
  intros _ values _. simpl.
  rewrite rowToObject_distinct by done.
  rewrite entries_no_index; simpl.
  - apply imap_ext. intros i h _. now rewrite cellValue_makeRow.
  - intros key Hkey. rewrite fmap_imap in Hkey.
    apply elem_of_lookup_imap in Hkey as (i & h & -> & Hi). simpl.
    apply Hplain. eapply list_elem_of_lookup_2; eauto.
Qed.

Lemma parse_first_page_witness :
  JsObject.entries <$>
    (parseResultSet
       (Some (makeResultSet ["id"; "name"]
          ((Some <$> ["id"; "name"]) :: [[Some "1"; Some "Alice"]; [Some "2"]])))
       newParser).1
  = [[("id", Some "1"); ("name", Some "Alice")]; [("id", Some "2"); ("name", None)]].
Proof.
  apply (proj1 (parse_first_page ["id"; "name"] [[Some "1"; Some "Alice"]; [Some "2"]]
    ltac:(discriminate)
    ltac:(apply (bool_decide_unpack _); vm_compute; exact I)
    ltac:(apply (bool_decide_unpack _); vm_compute; exact I)
    ltac:(intros h Hh; apply list_elem_of_In in Hh; simpl in Hh;
          destruct Hh as [<-|[<-|[]]]; reflexivity))).
Defined.

(** ** Sizes *)

Lemma parseResultSet_length_le rs this :
  (length (parseResultSet (Some rs) this).1 ≤ length (rawRowsOf rs))%nat.
Proof.
  destruct (headers (initHeaders (metaOf rs) this)) as [hs|] eqn:Hhs.
  - rewrite (parseResultSet_ready _ _ _ Hhs).
    destruct (skipHeaderOf _ _ _); simpl; rewrite length_fmap, ?length_drop; lia.
  - rewrite (parseResultSet_unset _ _ Hhs). simpl. lia.
Qed.

(** X11: [parseResultSetWith] never returns more results than
    [parseResultSet] returns rows, which are never more than the rows of
    the batch; it returns as many as [parseResultSet] exactly when no
    transform result is [null]. *)
Theorem parseResultSetWith_bounded {S T} (rs : ResultSet)
    (rowParser : RowParser S T) (this : Parser) (s : S) :
  (length (parseResultSetWith (Some rs) rowParser this s).1.1
   ≤ length (parseResultSet (Some rs) this).1)%nat
  ∧ (length (parseResultSet (Some rs) this).1 ≤ length (rawRowsOf rs))%nat
  ∧ (length (parseResultSetWith (Some rs) rowParser this s).1.1
     = length (parseResultSet (Some rs) this).1
     ↔ JsNull ∉ (transformEach rowParser (parseResultSet (Some rs) this).1 s).1).
Proof.
  rewrite parseResultSetWith_filter. cbn [fst snd].
  rewrite <- (transformEach_length rowParser (parseResultSet (Some rs) this).1 s).
  split; [apply length_filter |]. split.
  - rewrite transformEach_length. apply parseResultSet_length_le.
  - generalize (transformEach rowParser (parseResultSet (Some rs) this).1 s).1.
    intros all. induction all as [|parsed all IH].
    + split; [intros _ []%elem_of_nil | done].
    + pose proof (length_filter notStrictNull all) as Hle.
      rewrite filter_cons, not_elem_of_cons.
      destruct parsed; simpl.
      * split; [lia | now intros [? _]].
      * rewrite <- IH. split; [intros; split; [done | lia] | intros [_ ->]; done].
      * rewrite <- IH. split; [intros; split; [done | lia] | intros [_ ->]; done].
Qed.

Lemma parseResultSetWith_bounded_witness :
  length (parseResultSetWith (Some pageWithHeader)
            (pureRowParser (λ _, @JsUndefined string)) newParser tt).1.1
  = length (parseResultSet (Some pageWithHeader) newParser).1.
Proof.
  apply (proj2 (proj2 (parseResultSetWith_bounded pageWithHeader
           (pureRowParser (λ _, @JsUndefined string)) newParser tt))).
  vm_compute. intros Hin. apply list_elem_of_In in Hin. simpl in Hin.
  destruct Hin as [Hin|[]]. discriminate.
Defined.
